(** * hardware_interface::ResourceManager

    A shallow embedding of
    [hardware_interface/include/hardware_interface/resource_manager.h]
    and the properties of its three operations, [registerHandle],
    [getHandle] and [getNames], and of the two claim policies
    [ClaimResources] and [DontClaimResources]. *)

From Stdlib Require Import String Ascii List Bool Arith NArith Lia.
From Stdlib Require Import Sorted Permutation.
Import ListNotations.

Local Open Scope string_scope.
Local Open Scope list_scope.

(** ** std::string ordering

    [std::map<std::string, T>] orders its keys with [std::less<std::string>],
    the lexicographic comparison of the characters as unsigned bytes, a
    proper prefix being smaller.  [String.compare] is that comparison. *)

Definition string_lt (a b : string) : Prop := String.compare a b = Lt.

(** ** std::map<std::string, V>

    The container is modelled by its in-order sequence of nodes: a list of
    (key, value) pairs.  The tree behind it is not observable through the
    operations the resource manager uses ([find], [insert], [end], [size],
    iteration, and reading or writing [it->second]). *)

Section StdMap.

Variable V : Type.

Definition std_map : Type := list (string * V).

(** An iterator is [end()] or points to a node; the node is named by its
    position in the in-order sequence, and carries what [it->first] and
    [it->second] read while the map is not modified. *)
Inductive iterator : Type :=
| Node (pos : nat) (first : string) (second : V)
| End.

Definition is_end (it : iterator) : bool :=
  match it with End => true | Node _ _ _ => false end.

Definition size (m : std_map) : nat := length m.

Fixpoint find_from (pos : nat) (k : string) (m : std_map) : iterator :=
  match m with
  | [] => End
  | (k', v) :: m' =>
      if String.eqb k k' then Node pos k' v else find_from (S pos) k m'
  end.

(** [m.find(k)] *)
Definition find (k : string) (m : std_map) : iterator := find_from 0 k m.

(** [m.insert(std::make_pair(k, v))]: a node is added at its place in the
    key order; when the key is already there the map is left as it is. *)
Fixpoint insert (kv : string * V) (m : std_map) : std_map :=
  match m with
  | [] => [kv]
  | kv' :: m' =>
      match String.compare (fst kv) (fst kv') with
      | Lt => kv :: m
      | Eq => m
      | Gt => kv' :: insert kv m'
      end
  end.

(** [it->second = v] for the iterator at position [pos]. *)
Fixpoint set_second (pos : nat) (v : V) (m : std_map) : std_map :=
  match m with
  | [] => []
  | (k, v') :: m' =>
      match pos with
      | O => (k, v) :: m'
      | S p => (k, v') :: set_second p v m'
      end
  end.

Definition keys (m : std_map) : list string := map fst m.

(** The representation invariant of the container: the keys of the
    in-order sequence are strictly increasing. *)
Definition map_ok (m : std_map) : Prop := StronglySorted string_lt (keys m).

(** The number of nodes whose key is [k]. *)
Definition count_key (k : string) (m : std_map) : nat :=
  length (filter (fun kv => String.eqb k (fst kv)) m).

End StdMap.

Arguments Node {V} pos first second.
Arguments End {V}.
Arguments is_end {V} it.
Arguments size {V} m.
Arguments find_from {V} pos k m.
Arguments find {V} k m.
Arguments insert {V} kv m.
Arguments set_second {V} pos v m.
Arguments keys {V} m.
Arguments map_ok {V} m.
Arguments count_key {V} k m.

(** ** Exceptions, outcomes and observable events *)

(** [getHandle] throws [HardwareInterfaceException]; the collaborator's
    [claim] may throw that or anything else. *)
Inductive exception : Type :=
| HardwareInterfaceException (what : string)
| OtherException (what : string).

(** How a call ends: it returns a value or an exception leaves it. *)
Inductive outcome (A : Type) : Type :=
| Returned (a : A)
| Thrown (e : exception).

Arguments Returned {A} a.
Arguments Thrown {A} e.

(** What a run of the resource manager does to the outside, in order: the
    calls of [hw->claim(name)] and the warnings sent to the ROS console. *)
Inductive event : Type :=
| Claim (name : string)
| Warn (msg : string).

Definition is_claim (ev : event) : bool :=
  match ev with Claim _ => true | Warn _ => false end.

(** ** The template parameters and the base class *)

(** [ResourceHandle]: "The only requisite on the type is that it implements a
    std::string getName() method." *)
Class Handle (ResourceHandle : Type) : Type :=
  { getName : ResourceHandle -> string }.

(** The base class [HardwareInterface] is declared in hardware_interface.h,
    not in resource_manager.h; [HW] is the state of that sub-object.
    What the resource manager uses of it is the virtual [claim(name)], which
    acts on the sub-object and returns or throws, and the dynamic type of the
    object, [internal::demangleSymbol(typeid( *this ).name())]. *)
Class HardwareInterface (HW : Type) : Type :=
  { hw_claim : string -> HW -> HW * outcome unit;
    type_name : string }.

(** The two claim policies, [struct ClaimResources] and
    [struct DontClaimResources]; [DontClaimResources] is the default of the
    template parameter. *)
Inductive ClaimPolicy : Type :=
| ClaimResources
| DontClaimResources.

Section ResourceManager.

Context {ResourceHandle : Type} {handle_ops : Handle ResourceHandle}.
Context {HW : Type} {hw_ops : HardwareInterface HW}.

Definition ResourceMap : Type := std_map ResourceHandle.

(** A resource manager object: its [HardwareInterface] sub-object and its
    only data member [resource_map_]; [events] is the trace of what it has
    done to the outside so far. *)
Record State : Type := mkState
  { base : HW;
    resource_map_ : ResourceMap;
    events : list event }.

(** A method is run from a state and ends in a state with an outcome; the
    state reached is kept when an exception is thrown. *)
Definition M (A : Type) : Type := State -> State * outcome A.

Definition ret {A : Type} (a : A) : M A := fun s => (s, Returned a).

Definition throw {A : Type} (e : exception) : M A := fun s => (s, Thrown e).

Definition bind {A B : Type} (c : M A) (k : A -> M B) : M B :=
  fun s =>
    match c s with
    | (s', Returned a) => k a s'
    | (s', Thrown e) => (s', Thrown e)
    end.

Notation "x <- c ;; k" := (bind c (fun x => k))
  (at level 61, c at next level, right associativity).
Notation "c ;; k" := (bind c (fun _ => k))
  (at level 61, right associativity).

Definition get_resource_map : M ResourceMap :=
  fun s => (s, Returned (resource_map_ s)).

Definition set_resource_map (m : ResourceMap) : M unit :=
  fun s => ({| base := base s; resource_map_ := m; events := events s |},
            Returned tt).

(** [ROS_WARN_STREAM(msg)] *)
Definition ROS_WARN_STREAM (msg : string) : M unit :=
  fun s => ({| base := base s; resource_map_ := resource_map_ s;
               events := events s ++ [Warn msg] |},
            Returned tt).

(** [hw->claim(name)], a virtual call on the [HardwareInterface] sub-object.
    The call is recorded when it is made, whether it returns or throws. *)
Definition HardwareInterface_claim (name : string) : M unit :=
  fun s =>
    let (b, r) := hw_claim name (base s) in
    ({| base := b; resource_map_ := resource_map_ s;
        events := events s ++ [Claim name] |}, r).

(** [ClaimPolicy::claim(hw, name)]:
    [ClaimResources::claim] is [{hw->claim(name);}] and
    [DontClaimResources::claim] is [{}]. *)
Definition claim (P : ClaimPolicy) (hw : string -> M unit) (name : string)
  : M unit :=
  match P with
  | ClaimResources => hw name
  | DontClaimResources => ret tt
  end.

(** [std::vector<std::string> getNames() const]: the keys are pushed back
    in iteration order ([out.reserve] only sizes the buffer). *)
Definition getNames : M (list string) :=
  m <- get_resource_map ;;
  ret (fold_left (fun out it => out ++ [fst it]) m []).

(** [void registerHandle(const ResourceHandle& handle)] *)
Definition registerHandle (handle : ResourceHandle) : M unit :=
  m <- get_resource_map ;;
  match find (getName handle) m with
  | End =>
      set_resource_map (insert (getName handle, handle) m)
  | Node pos _ _ =>
      ROS_WARN_STREAM ("Replacing previously registered handle '"
                       ++ getName handle ++ "' in '" ++ type_name ++ "'.") ;;
      set_resource_map (set_second pos handle m)
  end.

(** [ResourceHandle getHandle(const std::string& name)].  [it->second] is
    read after the claim; the claim acts on the [HardwareInterface]
    sub-object and leaves [resource_map_] alone, so what is read is the
    value the iterator found. *)
Definition getHandle (P : ClaimPolicy) (name : string) : M ResourceHandle :=
  m <- get_resource_map ;;
  match find name m with
  | End =>
      throw (HardwareInterfaceException
               ("Could not find resource '" ++ name ++ "' in '"
                ++ type_name ++ "'."))
  | Node _ _ second =>
      claim P HardwareInterface_claim name ;;
      ret second
  end.

(** *** Runs of a resource manager *)

(** A freshly constructed manager: [resource_map_] is empty. *)
Definition init (b : HW) : State :=
  {| base := b; resource_map_ := []; events := [] |}.

(** The calls of the public interface. *)
Inductive call : Type :=
| RegisterHandle (handle : ResourceHandle)
| GetHandle (name : string)
| GetNames.

(** The state after a call, whatever its outcome: the caller may catch an
    exception and go on using the object. *)
Definition step (P : ClaimPolicy) (c : call) (s : State) : State :=
  match c with
  | RegisterHandle handle => fst (registerHandle handle s)
  | GetHandle name => fst (getHandle P name s)
  | GetNames => fst (getNames s)
  end.

Definition run (P : ClaimPolicy) (cs : list call) (s : State) : State :=
  fold_left (fun s c => step P c s) cs s.

(** The names passed to [registerHandle] in a sequence of calls. *)
Fixpoint registered (cs : list call) : list string :=
  match cs with
  | [] => []
  | RegisterHandle handle :: cs' => getName handle :: registered cs'
  | _ :: cs' => registered cs'
  end.

(** Whether [name] has a node in the map of [s]. *)
Definition present (name : string) (s : State) : bool :=
  negb (is_end (find name (resource_map_ s))).

(** The text of the two messages. *)
Definition not_found_msg (name : string) : string :=
  "Could not find resource '" ++ name ++ "' in '" ++ type_name ++ "'.".

Definition replacing_msg (name : string) : string :=
  "Replacing previously registered handle '" ++ name ++ "' in '"
  ++ type_name ++ "'.".

End ResourceManager.

Arguments State ResourceHandle HW : clear implicits.
Arguments M ResourceHandle HW A : clear implicits.
Arguments call ResourceHandle : clear implicits.

(** ** A concrete handle type and a concrete collaborator *)

(** A handle with a name and a payload. *)
Record SampleHandle : Type := mkSample
  { sample_name : string;
    sample_value : nat }.

#[export] Instance SampleHandle_ops : Handle SampleHandle :=
  { getName := sample_name }.

(** Modelled from the spec: [HardwareInterface::claim], which is defined in
    hardware_interface.h and not in resource_manager.h.  The collaborator
    is "expected to record that name is now exclusively held and to raise
    its own error if the resource is already claimed by another party".
    Its state is the list of the names held. *)
Definition exclusive_claim (name : string) (held : list string)
  : list string * outcome unit :=
  if existsb (String.eqb name) held
  then (held,
        Thrown (OtherException ("Resource '" ++ name ++ "' is already claimed")))
  else (name :: held, Returned tt).

#[export] Instance ExclusiveHardware : HardwareInterface (list string) :=
  { hw_claim := exclusive_claim;
    type_name := "hardware_interface::SampleInterface" }.

Definition wheel_left : SampleHandle :=
  {| sample_name := "wheel_left"; sample_value := 1 |}.

Definition wheel_left' : SampleHandle :=
  {| sample_name := "wheel_left"; sample_value := 2 |}.

Definition wheel_right : SampleHandle :=
  {| sample_name := "wheel_right"; sample_value := 3 |}.

Definition caster : SampleHandle :=
  {| sample_name := "caster"; sample_value := 4 |}.

Definition unnamed : SampleHandle :=
  {| sample_name := ""; sample_value := 5 |}.

(** A freshly constructed manager whose collaborator holds nothing. *)
Definition fresh : State SampleHandle (list string) := init [].

(** A freshly constructed manager whose collaborator already holds
    "wheel_left" for another party. *)
Definition held_left : State SampleHandle (list string) :=
  {| base := ["wheel_left"]; resource_map_ := []; events := [] |}.

(** The manager after "wheel_left" has been registered and claimed once. *)
Definition claimed_left : State SampleHandle (list string) :=
  run ClaimResources [RegisterHandle wheel_left; GetHandle "wheel_left"] fresh.

(** ** Views of the map and of a history of calls *)

(** What [m.find(k)] leads to: the value of the node found, if any. *)
Definition lookup {V : Type} (k : string) (m : std_map V) : option V :=
  match find k m with
  | Node _ _ v => Some v
  | End => None
  end.

Definition is_warn (ev : event) : bool :=
  match ev with Warn _ => true | Claim _ => false end.

Section Histories.

Context {ResourceHandle : Type} {handle_ops : Handle ResourceHandle}.

(** The handle passed by the latest [registerHandle] call of a history whose
    name is [name], if there is one. *)
Definition last_registered (name : string) (cs : list (call ResourceHandle))
  : option ResourceHandle :=
  fold_left
    (fun acc c =>
       match c with
       | RegisterHandle handle =>
           if String.eqb name (getName handle) then Some handle else acc
       | _ => acc
       end)
    cs None.

(** The names a history asks for with [getHandle] once they have been
    registered, in the order of the calls.  The accumulator holds the names
    registered so far and the names collected so far. *)
Definition claims_step (acc : list string * list string)
           (c : call ResourceHandle) : list string * list string :=
  match c with
  | RegisterHandle handle => (getName handle :: fst acc, snd acc)
  | GetHandle name =>
      (fst acc,
       if existsb (String.eqb name) (fst acc)
       then snd acc ++ [name] else snd acc)
  | GetNames => acc
  end.

Definition expected_claims (cs : list (call ResourceHandle)) : list string :=
  snd (fold_left claims_step cs ([], [])).

(** The names a history registers again after they have been registered, in
    the order of the calls.  The accumulator holds the names registered so
    far and the names collected so far. *)
Definition warnings_step (acc : list string * list string)
           (c : call ResourceHandle) : list string * list string :=
  match c with
  | RegisterHandle handle =>
      (getName handle :: fst acc,
       if existsb (String.eqb (getName handle)) (fst acc)
       then snd acc ++ [getName handle] else snd acc)
  | _ => acc
  end.

Definition expected_warnings (cs : list (call ResourceHandle)) : list string :=
  snd (fold_left warnings_step cs ([], [])).

End Histories.

(** * Facts *)

(** ** The order on std::string *)

Lemma ascii_compare_refl (c : ascii) : Ascii.compare c c = Eq.
Proof. unfold Ascii.compare. apply N.compare_refl. Qed.

Lemma string_compare_refl (s : string) : String.compare s s = Eq.
Proof.
  induction s as [|c s IH]; simpl; [reflexivity|].
  now rewrite ascii_compare_refl.
Qed.

Lemma string_compare_eq (a b : string) : String.compare a b = Eq <-> a = b.
Proof.
  split; [apply String.compare_eq_iff|].
  intros ->. apply string_compare_refl.
Qed.

Lemma string_lt_irrefl (s : string) : ~ string_lt s s.
Proof. unfold string_lt. rewrite string_compare_refl. discriminate. Qed.

Lemma string_lt_neq (a b : string) : string_lt a b -> a <> b.
Proof. intros H ->. exact (string_lt_irrefl _ H). Qed.

Lemma string_lt_trans (a b c : string) :
  string_lt a b -> string_lt b c -> string_lt a c.
Proof.
  unfold string_lt. revert b c.
  induction a as [|x a IH]; intros [|y b] [|z c]; simpl; try congruence.
  unfold Ascii.compare.
  destruct (N.compare_spec (N_of_ascii x) (N_of_ascii y)) as [Exy|Lxy|Gxy];
    try discriminate;
    destruct (N.compare_spec (N_of_ascii y) (N_of_ascii z)) as [Eyz|Lyz|Gyz];
    try discriminate; intros Hab Hbc.
  - rewrite Exy, Eyz, N.compare_refl. eauto.
  - rewrite Exy. now apply N.compare_lt_iff in Lyz as ->.
  - rewrite <- Eyz. now apply N.compare_lt_iff in Lxy as ->.
  - assert (N_of_ascii x < N_of_ascii z)%N as L by lia.
    now apply N.compare_lt_iff in L as ->.
Qed.

Lemma string_compare_gt_lt (a b : string) :
  String.compare a b = Gt -> string_lt b a.
Proof.
  unfold string_lt. rewrite (String.compare_antisym b a).
  now intros ->.
Qed.

(** ** Facts on std::map *)

Section StdMapFacts.

Context {V : Type}.

(** *** find *)

Lemma find_from_shift (p : nat) (k : string) (m : std_map V) :
  find_from (S p) k m =
  match find_from p k m with
  | Node i a b => Node (S i) a b
  | End => End
  end.
Proof.
  revert p. induction m as [|[k' v] m IH]; intros p; simpl; [reflexivity|].
  destruct (String.eqb k k'); [reflexivity|]. apply IH.
Qed.

Lemma find_cons (k k' : string) (v : V) (m : std_map V) :
  find k ((k', v) :: m) =
  if String.eqb k k' then Node 0 k' v
  else match find k m with
       | Node i a b => Node (S i) a b
       | End => End
       end.
Proof.
  unfold find. simpl. destruct (String.eqb k k'); [reflexivity|].
  apply find_from_shift.
Qed.

Lemma find_end_iff (k : string) (m : std_map V) :
  find k m = End <-> ~ In k (keys m).
Proof.
  induction m as [|[k' v] m IH]; simpl.
  - split; [intros _ []|reflexivity].
  - rewrite find_cons. destruct (String.eqb_spec k k') as [->|Hne].
    + split; [discriminate|]. intros H. exfalso. apply H. now left.
    + destruct (find k m) as [i a b|].
      * split; [discriminate|]. intros H. exfalso.
        assert (~ In k (keys m)) as H' by (intros Hin; apply H; now right).
        apply IH in H'. discriminate.
      * split; [|reflexivity]. intros _ [Heq|Hin]; [congruence|].
        destruct IH as [IH _]. now apply IH.
Qed.

Lemma find_node_inv (k : string) (m : std_map V) (i : nat) (a : string) (b : V) :
  find k m = Node i a b -> a = k /\ nth_error m i = Some (k, b).
Proof.
  revert i. induction m as [|[k' v] m IH]; intros i; [discriminate|].
  rewrite find_cons. destruct (String.eqb_spec k k') as [->|Hne].
  - intros [= <- <- <-]. now split.
  - destruct (find k m) as [j a' b'|]; [|discriminate].
    intros [= <- <- <-]. destruct (IH j eq_refl) as [-> H]. now split.
Qed.

Lemma find_is_end (k : string) (m : std_map V) :
  is_end (find k m) = negb (existsb (String.eqb k) (keys m)).
Proof.
  induction m as [|[k' v] m IH]; [reflexivity|].
  rewrite find_cons. simpl. destruct (String.eqb k k'); [reflexivity|].
  simpl. rewrite <- IH. now destruct (find k m).
Qed.

(** *** insert *)

Lemma insert_absent_perm (kv : string * V) (m : std_map V) :
  ~ In (fst kv) (keys m) -> Permutation (insert kv m) (kv :: m).
Proof.
  induction m as [|kv' m IH]; simpl; intros Hni; [reflexivity|].
  destruct (String.compare (fst kv) (fst kv')) eqn:Hc.
  - apply String.compare_eq_iff in Hc. exfalso. apply Hni. now left.
  - reflexivity.
  - rewrite perm_swap. apply perm_skip. apply IH.
    intros Hin. apply Hni. now right.
Qed.

Lemma find_insert_absent (kv : string * V) (m : std_map V) :
  find (fst kv) m = End ->
  exists i, find (fst kv) (insert kv m) = Node i (fst kv) (snd kv).
Proof.
  destruct kv as [k v]. simpl.
  induction m as [|[k' v'] m IH]; simpl.
  - intros _. exists 0. unfold find. simpl. now rewrite String.eqb_refl.
  - rewrite find_cons. destruct (String.eqb_spec k k') as [->|Hne];
      [discriminate|].
    intros Hend.
    assert (find k m = End) as Hm by (now destruct (find k m)).
    destruct (String.compare k k') eqn:Hc.
    + apply String.compare_eq_iff in Hc. contradiction.
    + exists 0. rewrite find_cons. now rewrite String.eqb_refl.
    + destruct (IH Hm) as [i Hi]. exists (S i). rewrite find_cons.
      destruct (String.eqb_spec k k'); [contradiction|]. now rewrite Hi.
Qed.

Lemma find_insert_other (k : string) (kv : string * V) (m : std_map V) :
  k <> fst kv ->
  is_end (find k (insert kv m)) = is_end (find k m).
Proof.
  intros Hne. rewrite !find_is_end. f_equal.
  induction m as [|kv' m IH]; simpl.
  - destruct (String.eqb_spec k (fst kv)); [contradiction|reflexivity].
  - destruct (String.compare (fst kv) (fst kv')); simpl.
    + reflexivity.
    + destruct (String.eqb_spec k (fst kv)); [contradiction|reflexivity].
    + now rewrite IH.
Qed.

Lemma keys_insert_In (k : string) (kv : string * V) (m : std_map V) :
  In k (keys (insert kv m)) <-> k = fst kv \/ In k (keys m).
Proof.
  induction m as [|kv' m IH]; simpl.
  - intuition.
  - destruct (String.compare (fst kv) (fst kv')) eqn:Hc; simpl.
    + apply String.compare_eq_iff in Hc. rewrite Hc. intuition.
    + intuition.
    + rewrite IH. intuition.
Qed.

Lemma insert_ok (kv : string * V) (m : std_map V) :
  map_ok m -> map_ok (insert kv m).
Proof.
  unfold map_ok. induction m as [|kv' m IH]; simpl; intros Hs.
  - repeat constructor.
  - inversion Hs as [|? ? Hs' Hall]; subst.
    destruct (String.compare (fst kv) (fst kv')) eqn:Hc; simpl.
    + exact Hs.
    + constructor; [exact Hs|]. constructor; [exact Hc|].
      rewrite Forall_forall in *. intros x Hx.
      apply (string_lt_trans _ (fst kv')); [exact Hc|]. now apply Hall.
    + constructor; [now apply IH|].
      rewrite Forall_forall in *. intros x Hx.
      apply (keys_insert_In x kv m) in Hx. destruct Hx as [->|Hx].
      * now apply string_compare_gt_lt.
      * now apply Hall.
Qed.

(** *** writing through an iterator *)

Lemma keys_set_second (i : nat) (v : V) (m : std_map V) :
  keys (set_second i v m) = keys m.
Proof.
  revert i. induction m as [|[k v'] m IH]; intros [|i]; simpl;
    try reflexivity. now rewrite IH.
Qed.

Lemma length_set_second (i : nat) (v : V) (m : std_map V) :
  length (set_second i v m) = length m.
Proof.
  rewrite <- (length_map fst (set_second i v m)), <- (length_map fst m).
  fold (keys (set_second i v m)). fold (keys m).
  now rewrite keys_set_second.
Qed.

Lemma find_set_second (k : string) (m : std_map V) (i : nat) (a : string)
      (b v : V) :
  find k m = Node i a b -> find k (set_second i v m) = Node i a v.
Proof.
  revert i. induction m as [|[k' v'] m IH]; intros i; [discriminate|].
  rewrite find_cons. destruct (String.eqb_spec k k') as [->|Hne].
  - intros [= <- <- <-]. simpl. rewrite find_cons.
    now rewrite String.eqb_refl.
  - destruct (find k m) as [j a' b'|] eqn:Hf; [|discriminate].
    intros [= <- <- <-]. simpl. rewrite find_cons.
    destruct (String.eqb_spec k k'); [contradiction|].
    now rewrite (IH j eq_refl).
Qed.

(** *** keys of a well-formed map *)

Lemma map_ok_NoDup (m : std_map V) : map_ok m -> NoDup (keys m).
Proof.
  unfold map_ok. induction 1 as [|k ks Hs IH Hall]; constructor; [|exact IH].
  intros Hin. rewrite Forall_forall in Hall.
  exact (string_lt_irrefl _ (Hall _ Hin)).
Qed.

Lemma count_key_keys (k : string) (m : std_map V) :
  count_key k m = count_occ string_dec (keys m) k.
Proof.
  unfold count_key. induction m as [|[k' v] m IH]; simpl; [reflexivity|].
  destruct (String.eqb_spec k k') as [->|Hne]; simpl.
  - destruct (string_dec k' k'); [|contradiction]. now rewrite IH.
  - destruct (string_dec k' k); [congruence|]. exact IH.
Qed.

End StdMapFacts.

(** Two strictly increasing lists with the same elements are equal. *)
Lemma sorted_same_elements (l1 l2 : list string) :
  StronglySorted string_lt l1 -> StronglySorted string_lt l2 ->
  (forall k, In k l1 <-> In k l2) -> l1 = l2.
Proof.
  intros H1. revert l2.
  induction H1 as [|a l1 Hs1 IH Ha]; intros l2 H2 Hiff.
  - destruct l2 as [|b l2]; [reflexivity|].
    exfalso. apply (proj2 (Hiff b)). now left.
  - destruct H2 as [|b l2 Hs2 Hb].
    + exfalso. apply (proj1 (Hiff a)). now left.
    + rewrite Forall_forall in Ha, Hb.
      assert (a = b) as ->.
      { destruct (proj1 (Hiff a) (or_introl eq_refl)) as [E|Ia]; [now subst|].
        destruct (proj2 (Hiff b) (or_introl eq_refl)) as [E|Ib]; [now subst|].
        exfalso. apply (string_lt_irrefl a).
        apply (string_lt_trans _ b); auto. }
      f_equal. apply IH; [exact Hs2|].
      intros k. split; intros Hk.
      * destruct (proj1 (Hiff k) (or_intror Hk)) as [E|Ik]; [|exact Ik].
        subst k. exfalso. exact (string_lt_irrefl _ (Ha _ Hk)).
      * destruct (proj2 (Hiff k) (or_intror Hk)) as [E|Ik]; [|exact Ik].
        subst k. exfalso. exact (string_lt_irrefl _ (Hb _ Hk)).
Qed.

(** ** Facts on the resource manager *)

Section ResourceManagerFacts.

Context {ResourceHandle : Type} {handle_ops : Handle ResourceHandle}.
Context {HW : Type} {hw_ops : HardwareInterface HW}.

Implicit Types (s : State ResourceHandle HW) (h handle : ResourceHandle).
Implicit Types (name k : string) (P : ClaimPolicy).
Implicit Types (cs : list (call ResourceHandle)) (c : call ResourceHandle).

(** *** getNames *)

Lemma push_back_keys (m : std_map ResourceHandle) (out : list string) :
  fold_left (fun out it => out ++ [fst it]) m out = out ++ keys m.
Proof.
  revert out. induction m as [|kv m IH]; intros out; simpl.
  - now rewrite app_nil_r.
  - rewrite IH, <- app_assoc. reflexivity.
Qed.

Lemma getNames_keys s : getNames s = (s, Returned (keys (resource_map_ s))).
Proof.
  unfold getNames, bind, get_resource_map, ret.
  now rewrite push_back_keys.
Qed.

(** *** registerHandle *)

Lemma registerHandle_absent h s :
  find (getName h) (resource_map_ s) = End ->
  registerHandle h s =
  ({| base := base s;
      resource_map_ := insert (getName h, h) (resource_map_ s);
      events := events s |}, Returned tt).
Proof.
  intros Hf. unfold registerHandle, bind, get_resource_map.
  now rewrite Hf.
Qed.

Lemma registerHandle_present h s (i : nat) (a : string) (b : ResourceHandle) :
  find (getName h) (resource_map_ s) = Node i a b ->
  registerHandle h s =
  ({| base := base s;
      resource_map_ := set_second i h (resource_map_ s);
      events := events s ++ [Warn (replacing_msg (getName h))] |},
   Returned tt).
Proof.
  intros Hf. unfold registerHandle, bind, get_resource_map.
  now rewrite Hf.
Qed.

Lemma registerHandle_returns h s : snd (registerHandle h s) = Returned tt.
Proof.
  destruct (find (getName h) (resource_map_ s)) as [i a b|] eqn:Hf.
  - now rewrite (registerHandle_present h s i a b Hf).
  - now rewrite (registerHandle_absent h s Hf).
Qed.

Lemma registerHandle_base h s : base (fst (registerHandle h s)) = base s.
Proof.
  destruct (find (getName h) (resource_map_ s)) as [i a b|] eqn:Hf.
  - now rewrite (registerHandle_present h s i a b Hf).
  - now rewrite (registerHandle_absent h s Hf).
Qed.

Lemma registerHandle_finds h s :
  exists i,
    find (getName h) (resource_map_ (fst (registerHandle h s)))
    = Node i (getName h) h.
Proof.
  destruct (find (getName h) (resource_map_ s)) as [i a b|] eqn:Hf.
  - rewrite (registerHandle_present h s i a b Hf). simpl.
    exists i. destruct (find_node_inv _ _ _ _ _ Hf) as [-> _].
    now apply find_set_second with (b := b).
  - rewrite (registerHandle_absent h s Hf). simpl.
    exact (find_insert_absent (getName h, h) (resource_map_ s) Hf).
Qed.

Lemma registerHandle_keys h s k :
  In k (keys (resource_map_ (fst (registerHandle h s))))
  <-> k = getName h \/ In k (keys (resource_map_ s)).
Proof.
  destruct (find (getName h) (resource_map_ s)) as [i a b|] eqn:Hf.
  - rewrite (registerHandle_present h s i a b Hf). simpl.
    rewrite keys_set_second. split; [now right|].
    intros [->|Hin]; [|exact Hin].
    destruct (find_node_inv _ _ _ _ _ Hf) as [_ Hn].
    apply nth_error_In in Hn. apply (in_map fst) in Hn. exact Hn.
  - rewrite (registerHandle_absent h s Hf). simpl.
    apply (keys_insert_In k (getName h, h)).
Qed.

Lemma registerHandle_ok h s :
  map_ok (resource_map_ s) -> map_ok (resource_map_ (fst (registerHandle h s))).
Proof.
  intros Hok.
  destruct (find (getName h) (resource_map_ s)) as [i a b|] eqn:Hf.
  - rewrite (registerHandle_present h s i a b Hf). simpl.
    unfold map_ok. now rewrite keys_set_second.
  - rewrite (registerHandle_absent h s Hf). simpl. now apply insert_ok.
Qed.

(** *** getHandle *)

Lemma getHandle_absent P name s :
  find name (resource_map_ s) = End ->
  getHandle P name s
  = (s, Thrown (HardwareInterfaceException (not_found_msg name))).
Proof.
  intros Hf. unfold getHandle, bind, get_resource_map.
  now rewrite Hf.
Qed.

Lemma getHandle_present_noclaim name s (i : nat) (a : string)
      (b : ResourceHandle) :
  find name (resource_map_ s) = Node i a b ->
  getHandle DontClaimResources name s = (s, Returned b).
Proof.
  intros Hf. unfold getHandle, bind, get_resource_map.
  now rewrite Hf.
Qed.

Lemma getHandle_present_claim name s (i : nat) (a : string)
      (b : ResourceHandle) :
  find name (resource_map_ s) = Node i a b ->
  getHandle ClaimResources name s
  = ({| base := fst (hw_claim name (base s));
        resource_map_ := resource_map_ s;
        events := events s ++ [Claim name] |},
     match snd (hw_claim name (base s)) with
     | Returned _ => Returned b
     | Thrown e => Thrown e
     end).
Proof.
  intros Hf.
  unfold getHandle, bind, get_resource_map, claim, HardwareInterface_claim.
  rewrite Hf. destruct (hw_claim name (base s)) as [b' [[]|e]]; reflexivity.
Qed.

Lemma getHandle_map P name s :
  resource_map_ (fst (getHandle P name s)) = resource_map_ s.
Proof.
  destruct (find name (resource_map_ s)) as [i a b|] eqn:Hf.
  - destruct P.
    + now rewrite (getHandle_present_claim name s i a b Hf).
    + now rewrite (getHandle_present_noclaim name s i a b Hf).
  - now rewrite (getHandle_absent P name s Hf).
Qed.

(** *** Runs *)

Lemma run_snoc P cs c s : run P (cs ++ [c]) s = step P c (run P cs s).
Proof. unfold run. now rewrite fold_left_app. Qed.

Lemma registered_app cs cs' :
  registered (cs ++ cs') = registered cs ++ registered cs'.
Proof.
  induction cs as [|[h|name|] cs IH]; simpl; [reflexivity| |exact IH|exact IH].
  now rewrite IH.
Qed.

Lemma step_keys P c s k :
  In k (keys (resource_map_ (step P c s)))
  <-> In k (registered [c]) \/ In k (keys (resource_map_ s)).
Proof.
  destruct c as [h|name|]; cbn [step registered].
  - rewrite registerHandle_keys. simpl. intuition.
  - rewrite getHandle_map. simpl. intuition.
  - rewrite getNames_keys. simpl. intuition.
Qed.

Lemma step_ok P c s :
  map_ok (resource_map_ s) -> map_ok (resource_map_ (step P c s)).
Proof.
  destruct c as [h|name|]; cbn [step].
  - apply registerHandle_ok.
  - now rewrite getHandle_map.
  - now rewrite getNames_keys.
Qed.

Lemma run_ok P cs (b : HW) : map_ok (resource_map_ (run P cs (init b))).
Proof.
  induction cs as [|c cs IH] using rev_ind.
  - constructor.
  - rewrite run_snoc. now apply step_ok.
Qed.

Lemma run_keys P cs (b : HW) k :
  In k (keys (resource_map_ (run P cs (init b)))) <-> In k (registered cs).
Proof.
  induction cs as [|c cs IH] using rev_ind.
  - reflexivity.
  - rewrite run_snoc, step_keys, registered_app, in_app_iff, IH. intuition.
Qed.

Lemma present_iff name s :
  present name s = true <-> In name (keys (resource_map_ s)).
Proof.
  unfold present. rewrite find_is_end, negb_involutive.
  rewrite existsb_exists. split.
  - intros [x [Hin Heq]]. apply String.eqb_eq in Heq. now subst.
  - intros Hin. exists name. split; [exact Hin|apply String.eqb_refl].
Qed.

Lemma present_find_end name s :
  present name s = false <-> find name (resource_map_ s) = End.
Proof.
  unfold present. destruct (find name (resource_map_ s)); simpl;
    split; congruence.
Qed.

Lemma present_find_node name s :
  present name s = true ->
  exists i b, find name (resource_map_ s) = Node i name b.
Proof.
  unfold present.
  destruct (find name (resource_map_ s)) as [i a b|] eqn:Hf; [|discriminate].
  intros _. destruct (find_node_inv _ _ _ _ _ Hf) as [-> _]. now exists i, b.
Qed.

Lemma count_key_le_1 (m : std_map ResourceHandle) k :
  map_ok m -> count_key k m <= 1.
Proof.
  intros Hok. rewrite count_key_keys.
  apply NoDup_count_occ. now apply map_ok_NoDup.
Qed.

Lemma count_key_present (m : std_map ResourceHandle) k :
  map_ok m -> In k (keys m) -> count_key k m = 1.
Proof.
  intros Hok Hin. rewrite count_key_keys.
  apply NoDup_count_occ'; [now apply map_ok_NoDup|exact Hin].
Qed.

Lemma length_insert_absent (kv : string * ResourceHandle)
      (m : std_map ResourceHandle) :
  find (fst kv) m = End -> length (insert kv m) = S (length m).
Proof.
  intros Hf. apply find_end_iff in Hf.
  exact (Permutation_length (insert_absent_perm kv m Hf)).
Qed.

Lemma events_run_noclaim cs s :
  filter is_claim (events (run DontClaimResources cs s))
  = filter is_claim (events s)
  /\ base (run DontClaimResources cs s) = base s.
Proof.
  induction cs as [|c cs [IHe IHb]] using rev_ind; [now split|].
  rewrite run_snoc.
  set (s' := run DontClaimResources cs s) in *.
  destruct c as [h|name|]; cbn [step].
  - rewrite registerHandle_base.
    destruct (find (getName h) (resource_map_ s')) as [i a b|] eqn:Hf.
    + rewrite (registerHandle_present h s' i a b Hf). simpl.
      rewrite filter_app. simpl. now rewrite app_nil_r.
    + now rewrite (registerHandle_absent h s' Hf).
  - destruct (find name (resource_map_ s')) as [i a b|] eqn:Hf.
    + now rewrite (getHandle_present_noclaim name s' i a b Hf).
    + now rewrite (getHandle_absent _ name s' Hf).
  - now rewrite getNames_keys.
Qed.

(** ** The claims *)

(** C1.  For every handle [h] and every state, [registerHandle(h)] followed
    by [getHandle(h.getName())] returns a handle equal to [h], provided that,
    when the policy is [ClaimResources], the collaborator's
    [claim(h.getName())] returns normally.  Under [DontClaimResources] the
    proviso is void.  The name of [h] need not be new to the map: a handle
    stored under it before is replaced. *)
Theorem C1_register_then_get P h s :
  (P = ClaimResources ->
   snd (hw_claim (getName h) (base s)) = Returned tt) ->
  snd (getHandle P (getName h) (fst (registerHandle h s))) = Returned h.
Proof.
  intros Hclaim.
  destruct (registerHandle_finds h s) as [i Hf].
  destruct P.
  - rewrite (getHandle_present_claim _ _ i _ _ Hf). simpl.
    rewrite registerHandle_base. now rewrite (Hclaim eq_refl).
  - now rewrite (getHandle_present_noclaim _ _ i _ _ Hf).
Qed.

(** C2.  Under [ClaimResources], [getHandle(name)] calls the collaborator's
    [claim] exactly once and with exactly [name] when [name] is present, and
    not at all when it is absent (so only after presence is confirmed); a
    handle is returned only when the name is present and that call has
    returned normally (so the call comes before the return).  Under
    [DontClaimResources] no sequence of calls of the public interface ever
    calls the collaborator's [claim], and the collaborator's state stays as
    it was. *)
Theorem C2_claim_policy :
  (forall s name,
      events (fst (getHandle ClaimResources name s))
      = events s ++ (if present name s then [Claim name] else []))
  /\ (forall s name h,
         snd (getHandle ClaimResources name s) = Returned h ->
         present name s = true
         /\ snd (hw_claim name (base s)) = Returned tt)
  /\ (forall cs s,
         filter is_claim (events (run DontClaimResources cs s))
         = filter is_claim (events s)
         /\ base (run DontClaimResources cs s) = base s).
Proof.
  split; [|split].
  - intros s name. unfold present.
    destruct (find name (resource_map_ s)) as [i a b|] eqn:Hf.
    + now rewrite (getHandle_present_claim name s i a b Hf).
    + rewrite (getHandle_absent _ name s Hf). simpl. now rewrite app_nil_r.
  - intros s name h. unfold present.
    destruct (find name (resource_map_ s)) as [i a b|] eqn:Hf.
    + rewrite (getHandle_present_claim name s i a b Hf). simpl.
      destruct (snd (hw_claim name (base s))) as [[]|e]; [now split|discriminate].
    + rewrite (getHandle_absent _ name s Hf). discriminate.
  - apply events_run_noclaim.
Qed.

(** C3.  For every name that was never passed to [registerHandle] since the
    manager was constructed, [getHandle(name)] throws
    [HardwareInterfaceException]; its message is built from that exact name
    and from the demangled type name of the manager; no handle is returned
    and the manager is left as it was. *)
Theorem C3_never_registered_not_found P cs (b : HW) name :
  ~ In name (registered cs) ->
  getHandle P name (run P cs (init b))
  = (run P cs (init b),
     Thrown (HardwareInterfaceException
               ("Could not find resource '" ++ name ++ "' in '"
                ++ type_name ++ "'."))).
Proof.
  intros Hni. apply getHandle_absent.
  apply find_end_iff. now rewrite run_keys.
Qed.

(** C4.  For every registry state and handles [h1], [h2] with the same name,
    after [registerHandle(h1)] and then [registerHandle(h2)] the map has
    exactly one node for that name, its value is [h2], [getNames()] is as
    long as after the first registration alone, and the second call returns
    normally after sending one warning to the console. *)
Theorem C4_duplicate_registration s h1 h2 :
  map_ok (resource_map_ s) ->
  getName h1 = getName h2 ->
  let s1 := fst (registerHandle h1 s) in
  let s2 := fst (registerHandle h2 s1) in
  count_key (getName h1) (resource_map_ s2) = 1
  /\ (exists i, find (getName h1) (resource_map_ s2) = Node i (getName h1) h2)
  /\ (exists names1 names2,
         getNames s1 = (s1, Returned names1)
         /\ getNames s2 = (s2, Returned names2)
         /\ length names2 = length names1)
  /\ registerHandle h2 s1 = (s2, Returned tt)
  /\ events s2
     = events s1 ++ [Warn ("Replacing previously registered handle '"
                           ++ getName h2 ++ "' in '" ++ type_name ++ "'.")].
Proof.
  intros Hok Hname s1 s2.
  assert (map_ok (resource_map_ s1)) as Hok1 by now apply registerHandle_ok.
  assert (map_ok (resource_map_ s2)) as Hok2 by now apply registerHandle_ok.
  destruct (registerHandle_finds h1 s) as [i Hf1]. fold s1 in Hf1.
  rewrite Hname in Hf1.
  pose proof (registerHandle_present h2 s1 i _ _ Hf1) as Hreg.
  destruct (registerHandle_finds h2 s1) as [j Hf2]. fold s2 in Hf2.
  repeat split.
  - apply count_key_present; [exact Hok2|].
    unfold s2. rewrite registerHandle_keys. left. exact Hname.
  - exists j. now rewrite Hname.
  - exists (keys (resource_map_ s1)), (keys (resource_map_ s2)).
    rewrite !getNames_keys. repeat split.
    unfold s2. rewrite Hreg. simpl. unfold keys.
    now rewrite !length_map, length_set_second.
  - unfold s2. now rewrite Hreg.
  - unfold s2. now rewrite Hreg.
Qed.

(** C5.  In every state reached from a freshly constructed manager,
    [getNames()] returns a sequence without duplicates whose elements are
    exactly the names registered so far (equivalently, the names present in
    the map), its length is the number of distinct registered names, and
    the call leaves the manager as it was. *)
Theorem C5_getNames_exactly_once P cs (b : HW) :
  let s := run P cs (init b) in
  exists names,
    getNames s = (s, Returned names)
    /\ NoDup names
    /\ (forall k, In k names <-> In k (registered cs))
    /\ (forall k, In k names <-> present k s = true)
    /\ length names = length (nodup string_dec (registered cs)).
Proof.
  intros s. exists (keys (resource_map_ s)).
  assert (NoDup (keys (resource_map_ s))) as Hnd
      by apply map_ok_NoDup, run_ok.
  repeat split.
  - apply getNames_keys.
  - exact Hnd.
  - apply run_keys.
  - apply run_keys.
  - now apply present_iff.
  - now apply present_iff.
  - apply Permutation_length, NoDup_Permutation.
    + exact Hnd.
    + apply NoDup_nodup.
    + intros k. rewrite nodup_In. apply run_keys.
Qed.

(** C6.  In every state reached from a freshly constructed manager the map
    has at most one node per name, and no call of the public interface
    removes a node: a name that is present before [registerHandle],
    [getHandle] or [getNames] is present after it. *)
Theorem C6_one_entry_never_removed P cs (b : HW) c k :
  let s := run P cs (init b) in
  count_key k (resource_map_ s) <= 1
  /\ (present k s = true -> present k (step P c s) = true).
Proof.
  intros s. split.
  - apply count_key_le_1, run_ok.
  - rewrite !present_iff, step_keys. now right.
Qed.

(** C7.  When [name] is present and the collaborator's [claim(name)] throws
    [e], [getHandle(name)] under [ClaimResources] throws that same [e]; the
    collaborator was called once, its state is the one it left, and the map
    is untouched. *)
Theorem C7_claim_error_propagates s name e :
  present name s = true ->
  snd (hw_claim name (base s)) = Thrown e ->
  getHandle ClaimResources name s
  = ({| base := fst (hw_claim name (base s));
        resource_map_ := resource_map_ s;
        events := events s ++ [Claim name] |},
     Thrown e).
Proof.
  intros Hp He. destruct (present_find_node name s Hp) as [i [b Hf]].
  rewrite (getHandle_present_claim name s i name b Hf). now rewrite He.
Qed.

(** C8.  For every handle, the empty-named one included, and every state,
    [registerHandle] returns normally; afterwards the handle is stored under
    its name, and the map has one node more when the name was absent and as
    many nodes as before when it was present. *)
Theorem C8_registerHandle_always_succeeds h s :
  snd (registerHandle h s) = Returned tt
  /\ (exists i,
         find (getName h) (resource_map_ (fst (registerHandle h s)))
         = Node i (getName h) h)
  /\ size (resource_map_ (fst (registerHandle h s)))
     = size (resource_map_ s) + (if present (getName h) s then 0 else 1).
Proof.
  split; [apply registerHandle_returns|].
  split; [apply registerHandle_finds|].
  unfold present, size.
  destruct (find (getName h) (resource_map_ s)) as [i a b|] eqn:Hf.
  - rewrite (registerHandle_present h s i a b Hf). simpl.
    rewrite length_set_second. lia.
  - rewrite (registerHandle_absent h s Hf). simpl.
    rewrite (length_insert_absent (getName h, h) _ Hf). lia.
Qed.

(** C9.  In every state reached from a freshly constructed manager,
    [getNames()] returns the registered names, all of them and nothing
    else, in strictly increasing lexicographic order and leaves the manager
    as it was; the sequence returned depends only on the set of names
    registered, not on the order or number of the calls that registered
    them. *)
Theorem C9_getNames_sorted P cs (b : HW) :
  let s := run P cs (init b) in
  exists names,
    getNames s = (s, Returned names)
    /\ (forall k, In k names <-> In k (registered cs))
    /\ (forall k, In k names <-> present k s = true)
    /\ StronglySorted string_lt names
    /\ (forall P' cs' (b' : HW),
           (forall k, In k (registered cs) <-> In k (registered cs')) ->
           snd (getNames (run P' cs' (init b'))) = Returned names).
Proof.
  intros s. exists (keys (resource_map_ s)).
  split; [apply getNames_keys|].
  split; [intros k; apply run_keys|].
  split; [intros k; symmetry; apply present_iff|].
  split; [apply run_ok|].
  intros P' cs' b' Hsame. rewrite getNames_keys. simpl. f_equal.
  apply sorted_same_elements; [apply run_ok|apply run_ok|].
  intros k. unfold s. rewrite !run_keys. symmetry. apply Hsame.
Qed.

(** C10.  [getHandle(name)] never changes [resource_map_], whatever the
    policy and whether it returns or throws; when [name] is absent it throws
    [HardwareInterfaceException] and leaves the whole state as it was: no
    call of the collaborator's [claim], no stored entry modified. *)
Theorem C10_getHandle_read_only P name s :
  resource_map_ (fst (getHandle P name s)) = resource_map_ s
  /\ (present name s = false ->
      getHandle P name s
      = (s, Thrown (HardwareInterfaceException
                      ("Could not find resource '" ++ name ++ "' in '"
                       ++ type_name ++ "'.")))).
Proof.
  split; [apply getHandle_map|].
  intros Hp. apply getHandle_absent. now apply present_find_end.
Qed.

End ResourceManagerFacts.

(** ** The claims on concrete managers *)

(** The scenario of the specification: register "wheel_left", enumerate,
    look it up, look up "wheel_right". *)
Example wheel_scenario :
  let s := fst (registerHandle wheel_left fresh) in
  snd (getNames s) = Returned ["wheel_left"]
  /\ snd (getHandle DontClaimResources "wheel_left" s) = Returned wheel_left
  /\ snd (getHandle DontClaimResources "wheel_right" s)
     = Thrown (HardwareInterfaceException
                 "Could not find resource 'wheel_right' in 'hardware_interface::SampleInterface'.").
Proof. repeat split. Qed.

(** The empty name is a key like any other. *)
Example empty_name_registers :
  registerHandle unnamed fresh
  = ({| base := []; resource_map_ := [("", unnamed)]; events := [] |},
     Returned tt)
  /\ snd (getHandle DontClaimResources "" (fst (registerHandle unnamed fresh)))
     = Returned unnamed.
Proof. split; reflexivity. Qed.

(** C1 at a concrete manager: the collaborator holds nothing, the claim
    returns, and the handle comes back. *)
Lemma C1_register_then_get_witness :
  (ClaimResources = ClaimResources ->
   snd (hw_claim (getName wheel_left) (base fresh)) = Returned tt)
  /\ snd (getHandle ClaimResources (getName wheel_left)
            (fst (registerHandle wheel_left fresh)))
     = Returned wheel_left.
Proof.
  split; [intros _; reflexivity|].
  apply (C1_register_then_get ClaimResources wheel_left fresh).
  intros _. reflexivity.
Defined.

(** C1 without the proviso on the collaborator fails: "wheel_left" is not
    registered, the policy is [ClaimResources] and the collaborator already
    holds "wheel_left"; after [registerHandle(wheel_left)],
    [getHandle("wheel_left")] throws the collaborator's error and returns no
    handle. *)
Lemma C1_counterexample :
  find (getName wheel_left) (resource_map_ held_left) = End
  /\ snd (getHandle ClaimResources (getName wheel_left)
            (fst (registerHandle wheel_left held_left)))
     = Thrown (OtherException "Resource 'wheel_left' is already claimed")
  /\ snd (getHandle ClaimResources (getName wheel_left)
            (fst (registerHandle wheel_left held_left)))
     <> Returned wheel_left.
Proof.
  split; [reflexivity|]. split; [reflexivity|].
  vm_compute. discriminate.
Qed.

(** C2 at a concrete manager: a handle was returned, so the name is present
    and the claim has returned. *)
Lemma C2_claim_policy_witness :
  snd (getHandle ClaimResources "wheel_left"
         (fst (registerHandle wheel_left fresh)))
  = Returned wheel_left
  /\ present "wheel_left" (fst (registerHandle wheel_left fresh)) = true
  /\ snd (hw_claim "wheel_left" (base (fst (registerHandle wheel_left fresh))))
     = Returned tt.
Proof.
  split; [reflexivity|].
  apply (proj1 (proj2 C2_claim_policy)
               (fst (registerHandle wheel_left fresh)) "wheel_left" wheel_left).
  reflexivity.
Defined.

(** C3 at a concrete manager: "wheel_right" was never registered. *)
Lemma C3_never_registered_not_found_witness :
  ~ In "wheel_right"
      (registered [RegisterHandle wheel_left; GetHandle "wheel_left";
                   RegisterHandle caster])
  /\ snd (getHandle ClaimResources "wheel_right"
            (run ClaimResources
                 [RegisterHandle wheel_left; GetHandle "wheel_left";
                  RegisterHandle caster] fresh))
     = Thrown (HardwareInterfaceException
                 "Could not find resource 'wheel_right' in 'hardware_interface::SampleInterface'.").
Proof.
  assert (~ In "wheel_right"
            (registered [RegisterHandle wheel_left; GetHandle "wheel_left";
                         RegisterHandle caster])) as Hni.
  { simpl. intros [H|[H|[]]]; discriminate H. }
  split; [exact Hni|].
  exact (f_equal snd
           (C3_never_registered_not_found ClaimResources _ [] "wheel_right"
              Hni)).
Defined.

(** C4 at a concrete manager: "wheel_left" registered twice. *)
Lemma C4_duplicate_registration_witness :
  map_ok (resource_map_ fresh)
  /\ getName wheel_left = getName wheel_left'
  /\ count_key "wheel_left"
       (resource_map_
          (fst (registerHandle wheel_left'
                  (fst (registerHandle wheel_left fresh))))) = 1.
Proof.
  assert (map_ok (resource_map_ fresh)) as Hok by constructor.
  split; [exact Hok|]. split; [reflexivity|].
  exact (proj1 (C4_duplicate_registration fresh wheel_left wheel_left'
                  Hok eq_refl)).
Defined.

(** C6 at a concrete manager: "wheel_left" stays through a registration of
    another name. *)
Lemma C6_one_entry_never_removed_witness :
  present "wheel_left" (run DontClaimResources [RegisterHandle wheel_left] fresh)
  = true
  /\ present "wheel_left"
       (step DontClaimResources (RegisterHandle caster)
          (run DontClaimResources [RegisterHandle wheel_left] fresh))
     = true.
Proof.
  split; [reflexivity|].
  apply (proj2 (C6_one_entry_never_removed DontClaimResources
                  [RegisterHandle wheel_left] [] (RegisterHandle caster)
                  "wheel_left")).
  reflexivity.
Defined.

(** C7 at a concrete manager: "wheel_left" is registered and already held,
    the collaborator throws, and [getHandle] throws the same. *)
Lemma C7_claim_error_propagates_witness :
  present "wheel_left" claimed_left = true
  /\ snd (hw_claim "wheel_left" (base claimed_left))
     = Thrown (OtherException "Resource 'wheel_left' is already claimed")
  /\ snd (getHandle ClaimResources "wheel_left" claimed_left)
     = Thrown (OtherException "Resource 'wheel_left' is already claimed").
Proof.
  split; [reflexivity|]. split; [reflexivity|].
  exact (f_equal snd
           (C7_claim_error_propagates claimed_left "wheel_left"
              (OtherException "Resource 'wheel_left' is already claimed")
              eq_refl eq_refl)).
Defined.

(** C9 at concrete managers: the same two names registered in another
    order, and one of them twice. *)
Lemma C9_getNames_sorted_witness :
  (forall k,
      In k (registered [RegisterHandle wheel_left; RegisterHandle caster])
      <-> In k (registered [RegisterHandle caster; RegisterHandle wheel_left';
                            RegisterHandle caster]))
  /\ snd (getNames (run DontClaimResources
                      [RegisterHandle wheel_left; RegisterHandle caster] fresh))
     = snd (getNames (run ClaimResources
                        [RegisterHandle caster; RegisterHandle wheel_left';
                         RegisterHandle caster] held_left)).
Proof.
  assert (forall k,
      In k (registered [RegisterHandle wheel_left; RegisterHandle caster])
      <-> In k (registered [RegisterHandle caster; RegisterHandle wheel_left';
                            RegisterHandle caster])) as Hsame.
  { intros k. simpl. tauto. }
  split; [exact Hsame|].
  destruct (C9_getNames_sorted DontClaimResources
              [RegisterHandle wheel_left; RegisterHandle caster] [])
    as [names [Hnames [_ [_ [_ Hindep]]]]].
  exact (eq_trans (f_equal snd Hnames)
                  (eq_sym (Hindep ClaimResources _ ["wheel_left"] Hsame))).
Defined.

(** C10 at a concrete manager: "wheel_right" is absent. *)
Lemma C10_getHandle_read_only_witness :
  present "wheel_right" claimed_left = false
  /\ getHandle ClaimResources "wheel_right" claimed_left
     = (claimed_left,
        Thrown (HardwareInterfaceException
                  "Could not find resource 'wheel_right' in 'hardware_interface::SampleInterface'.")).
Proof.
  split; [reflexivity|].
  exact (proj2 (C10_getHandle_read_only ClaimResources "wheel_right"
                  claimed_left) eq_refl).
Defined.

(** ** More facts on std::map: the value found under a key *)

Section LookupFacts.

Context {V : Type}.

Lemma lookup_cons (k k' : string) (v : V) (m : std_map V) :
  lookup k ((k', v) :: m) = if String.eqb k k' then Some v else lookup k m.
Proof.
  unfold lookup. rewrite find_cons.
  destruct (String.eqb k k'); [reflexivity|]. now destruct (find k m).
Qed.

Lemma lookup_none_iff (k : string) (m : std_map V) :
  lookup k m = None <-> ~ In k (keys m).
Proof.
  rewrite <- find_end_iff. unfold lookup.
  destruct (find k m); split; congruence.
Qed.

Lemma lookup_some_In (k : string) (v : V) (m : std_map V) :
  lookup k m = Some v -> In k (keys m).
Proof.
  intros H. destruct (in_dec string_dec k (keys m)) as [Hin|Hni]; [exact Hin|].
  apply lookup_none_iff in Hni. congruence.
Qed.

Lemma lookup_insert (k : string) (kv : string * V) (m : std_map V) :
  ~ In (fst kv) (keys m) ->
  lookup k (insert kv m)
  = if String.eqb k (fst kv) then Some (snd kv) else lookup k m.
Proof.
  destruct kv as [n v]. simpl.
  induction m as [|[k' v'] m IH]; simpl; intros Hni.
  - now rewrite lookup_cons.
  - destruct (String.compare n k') eqn:Hc.
    + apply String.compare_eq_iff in Hc. exfalso. apply Hni. now left.
    + now rewrite lookup_cons.
    + rewrite !lookup_cons, IH by (intros Hin; apply Hni; now right).
      destruct (String.eqb_spec k k') as [->|Hk]; [|reflexivity].
      destruct (String.eqb_spec k' n) as [->|Hn]; [|reflexivity].
      exfalso. apply Hni. now left.
Qed.

Lemma lookup_set_second (k n : string) (m : std_map V) (i : nat) (a : string)
      (b v : V) :
  find n m = Node i a b ->
  lookup k (set_second i v m) = if String.eqb k n then Some v else lookup k m.
Proof.
  revert i. induction m as [|[k' v'] m IH]; intros i; [discriminate|].
  rewrite find_cons. destruct (String.eqb_spec n k') as [->|Hne].
  - intros [= <- <- <-]. simpl. rewrite !lookup_cons.
    now destruct (String.eqb k k').
  - destruct (find n m) as [j a' b'|] eqn:Hf; [|discriminate].
    intros [= <- <- <-]. simpl. rewrite !lookup_cons, (IH j eq_refl).
    destruct (String.eqb_spec k k') as [->|Hk]; [|reflexivity].
    destruct (String.eqb_spec k' n) as [->|Hn]; [contradiction|reflexivity].
Qed.

Lemma set_second_same (m : std_map V) (i : nat) (k : string) (v : V) :
  nth_error m i = Some (k, v) -> set_second i v m = m.
Proof.
  revert i. induction m as [|[k' v'] m IH]; intros [|i]; simpl;
    try discriminate.
  - now intros [= -> ->].
  - intros H. now rewrite (IH i H).
Qed.

(** A well-formed map is determined by what [find] leads to. *)
Lemma map_ext (m1 m2 : std_map V) :
  map_ok m1 -> map_ok m2 ->
  (forall k, lookup k m1 = lookup k m2) -> m1 = m2.
Proof.
  unfold map_ok. revert m2.
  induction m1 as [|[k1 v1] t1 IH]; intros [|[k2 v2] t2] H1 H2 Hext.
  - reflexivity.
  - specialize (Hext k2). rewrite lookup_cons, String.eqb_refl in Hext.
    discriminate.
  - specialize (Hext k1). rewrite lookup_cons, String.eqb_refl in Hext.
    discriminate.
  - simpl in H1, H2.
    inversion H1 as [|? ? Hs1 Ha1]; inversion H2 as [|? ? Hs2 Ha2]; subst.
    rewrite Forall_forall in Ha1, Ha2.
    assert (k1 = k2) as ->.
    { pose proof (Hext k1) as E1. pose proof (Hext k2) as E2.
      rewrite !lookup_cons, String.eqb_refl in E1.
      rewrite !lookup_cons, String.eqb_refl in E2.
      destruct (String.eqb_spec k1 k2) as [E|Hne]; [exact E|].
      destruct (String.eqb_spec k2 k1) as [E|_]; [now symmetry|].
      symmetry in E1. apply lookup_some_In in E1, E2.
      exfalso. apply (string_lt_irrefl k1).
      apply (string_lt_trans _ k2); auto. }
    assert (v1 = v2) as ->.
    { specialize (Hext k2). rewrite !lookup_cons, String.eqb_refl in Hext.
      congruence. }
    f_equal. apply IH; [exact Hs1|exact Hs2|].
    intros k. specialize (Hext k). rewrite !lookup_cons in Hext.
    destruct (String.eqb_spec k k2) as [E|Hk]; [|exact Hext].
    rewrite E. clear Hext.
    assert (lookup k2 t1 = None) as ->.
    { apply lookup_none_iff. intros Hin.
      exact (string_lt_irrefl _ (Ha1 _ Hin)). }
    symmetry. apply lookup_none_iff. intros Hin.
    exact (string_lt_irrefl _ (Ha2 _ Hin)).
Qed.

End LookupFacts.

(** ** More facts on the resource manager *)

Section ResourceManagerLookup.

Context {ResourceHandle : Type} {handle_ops : Handle ResourceHandle}.
Context {HW : Type} {hw_ops : HardwareInterface HW}.

Implicit Types (s : State ResourceHandle HW) (h handle : ResourceHandle).
Implicit Types (name k : string) (P : ClaimPolicy).
Implicit Types (cs : list (call ResourceHandle)) (c : call ResourceHandle).

(** *** What a call does to the value found under a key *)

Lemma getHandle_outcome P name s :
  snd (getHandle P name s)
  = match lookup name (resource_map_ s) with
    | None => Thrown (HardwareInterfaceException (not_found_msg name))
    | Some h =>
        match P with
        | ClaimResources =>
            match snd (hw_claim name (base s)) with
            | Returned _ => Returned h
            | Thrown e => Thrown e
            end
        | DontClaimResources => Returned h
        end
    end.
Proof.
  unfold lookup.
  destruct (find name (resource_map_ s)) as [i a b|] eqn:Hf.
  - destruct P.
    + now rewrite (getHandle_present_claim name s i a b Hf).
    + now rewrite (getHandle_present_noclaim name s i a b Hf).
  - now rewrite (getHandle_absent P name s Hf).
Qed.

Lemma registerHandle_lookup h s k :
  lookup k (resource_map_ (fst (registerHandle h s)))
  = if String.eqb k (getName h) then Some h else lookup k (resource_map_ s).
Proof.
  destruct (find (getName h) (resource_map_ s)) as [i a b|] eqn:Hf.
  - rewrite (registerHandle_present h s i a b Hf). simpl.
    now apply lookup_set_second with (a := a) (b := b).
  - rewrite (registerHandle_absent h s Hf). simpl.
    apply (lookup_insert k (getName h, h)). now apply find_end_iff.
Qed.

Lemma step_lookup P c s k :
  lookup k (resource_map_ (step P c s))
  = match c with
    | RegisterHandle h =>
        if String.eqb k (getName h) then Some h
        else lookup k (resource_map_ s)
    | _ => lookup k (resource_map_ s)
    end.
Proof.
  destruct c as [h|name|]; cbn [step].
  - apply registerHandle_lookup.
  - now rewrite getHandle_map.
  - now rewrite getNames_keys.
Qed.

Lemma last_registered_snoc name cs c :
  last_registered name (cs ++ [c])
  = match c with
    | RegisterHandle h =>
        if String.eqb name (getName h) then Some h
        else last_registered name cs
    | _ => last_registered name cs
    end.
Proof. unfold last_registered. now rewrite fold_left_app. Qed.

Lemma last_registered_name name cs h :
  last_registered name cs = Some h -> getName h = name.
Proof.
  induction cs as [|c cs IH] using rev_ind; [discriminate|].
  rewrite last_registered_snoc. destruct c as [h'|n|]; try exact IH.
  destruct (String.eqb_spec name (getName h')) as [->|_]; [|exact IH].
  now intros [= ->].
Qed.

Lemma run_lookup P cs (b : HW) name :
  lookup name (resource_map_ (run P cs (init b))) = last_registered name cs.
Proof.
  induction cs as [|c cs IH] using rev_ind; [reflexivity|].
  rewrite run_snoc, step_lookup, last_registered_snoc, IH.
  now destruct c.
Qed.

(** *** Events of a call *)

Lemma getHandle_claim_events name s :
  events (fst (getHandle ClaimResources name s))
  = events s ++ (if present name s then [Claim name] else []).
Proof.
  unfold present.
  destruct (find name (resource_map_ s)) as [i a b|] eqn:Hf.
  - now rewrite (getHandle_present_claim name s i a b Hf).
  - rewrite (getHandle_absent _ name s Hf). simpl. now rewrite app_nil_r.
Qed.

Lemma getHandle_warns P name s :
  filter is_warn (events (fst (getHandle P name s)))
  = filter is_warn (events s).
Proof.
  destruct (find name (resource_map_ s)) as [i a b|] eqn:Hf.
  - destruct P.
    + rewrite (getHandle_present_claim name s i a b Hf). simpl.
      rewrite filter_app. simpl. now rewrite app_nil_r.
    + now rewrite (getHandle_present_noclaim name s i a b Hf).
  - now rewrite (getHandle_absent P name s Hf).
Qed.

Lemma registerHandle_claims h s :
  filter is_claim (events (fst (registerHandle h s)))
  = filter is_claim (events s).
Proof.
  destruct (find (getName h) (resource_map_ s)) as [i a b|] eqn:Hf.
  - rewrite (registerHandle_present h s i a b Hf). simpl.
    rewrite filter_app. simpl. now rewrite app_nil_r.
  - now rewrite (registerHandle_absent h s Hf).
Qed.

Lemma present_existsb name s (l : list string) :
  (forall k, In k l <-> In k (keys (resource_map_ s))) ->
  present name s = existsb (String.eqb name) l.
Proof.
  intros Hl. apply eq_true_iff_eq. rewrite present_iff, existsb_exists.
  rewrite <- Hl. split.
  - intros Hin. exists name. split; [exact Hin|apply String.eqb_refl].
  - intros [x [Hin Heq]]. apply String.eqb_eq in Heq. now subst.
Qed.

Lemma claims_step_snoc cs c :
  fold_left claims_step (cs ++ [c]) ([], [])
  = claims_step (fold_left claims_step cs ([], [])) c.
Proof. now rewrite fold_left_app. Qed.

Lemma claims_registered cs k :
  In k (fst (fold_left claims_step cs ([], []))) <-> In k (registered cs).
Proof.
  induction cs as [|c cs IH] using rev_ind; [reflexivity|].
  rewrite claims_step_snoc, registered_app, in_app_iff.
  destruct c as [h|name|]; simpl; rewrite IH; intuition.
Qed.

(** *** Further properties of the three operations *)

(** X1.  [registerHandle(h)] does not disturb the other resources: for every
    name other than [h.getName()], [getHandle] ends after the registration
    as it would have ended before it, whatever the policy. *)
Theorem X1_registerHandle_frame P h s k :
  k <> getName h ->
  snd (getHandle P k (fst (registerHandle h s))) = snd (getHandle P k s).
Proof.
  intros Hne. rewrite !getHandle_outcome, registerHandle_lookup.
  rewrite registerHandle_base.
  destruct (String.eqb_spec k (getName h)); [contradiction|reflexivity].
Qed.

(** X2.  Since a manager is constructed, every handle that [getHandle(name)]
    returns bears the name it was asked under: the key of a node is the
    name of the handle stored in it. *)
Theorem X2_returned_handle_is_named P P' cs (b : HW) name h :
  snd (getHandle P' name (run P cs (init b))) = Returned h ->
  getName h = name.
Proof.
  rewrite getHandle_outcome, run_lookup.
  destruct (last_registered name cs) as [h'|] eqn:Hl; [|discriminate].
  apply last_registered_name in Hl. intros Hret.
  assert (h' = h) as <-; [|exact Hl].
  destruct P'; [|congruence].
  destruct (snd (hw_claim name (base (run P cs (init b))))); congruence.
Qed.

(** X3.  The latest registration wins: after any history of calls on a new
    manager, [getHandle(name)] without claiming returns the handle of the
    latest [registerHandle] call made under that name, and throws
    [HardwareInterfaceException] when there was none. *)
Theorem X3_getHandle_latest_registration P cs (b : HW) name :
  snd (getHandle DontClaimResources name (run P cs (init b)))
  = match last_registered name cs with
    | Some h => Returned h
    | None =>
        Thrown (HardwareInterfaceException
                  ("Could not find resource '" ++ name ++ "' in '"
                   ++ type_name ++ "'."))
    end.
Proof. rewrite getHandle_outcome, run_lookup. reflexivity. Qed.

(** X4.  [resource_map_] depends only on which handle was registered last
    under each name: two histories that agree on that, whatever the order
    of their registrations, their lookups and enumerations, their policies
    and their collaborators, end with the same map. *)
Theorem X4_map_determined_by_latest_registrations
        P P' cs cs' (b b' : HW) :
  (forall name, last_registered name cs = last_registered name cs') ->
  resource_map_ (run P cs (init b)) = resource_map_ (run P' cs' (init b')).
Proof.
  intros Hsame. apply map_ext; [apply run_ok|apply run_ok|].
  intros k. now rewrite !run_lookup.
Qed.

(** X5.  Registrations under different names commute: on a well-formed map,
    [registerHandle(h1); registerHandle(h2)] and
    [registerHandle(h2); registerHandle(h1)] leave the same map. *)
Theorem X5_registerHandle_commutes s h1 h2 :
  map_ok (resource_map_ s) ->
  getName h1 <> getName h2 ->
  resource_map_ (fst (registerHandle h2 (fst (registerHandle h1 s))))
  = resource_map_ (fst (registerHandle h1 (fst (registerHandle h2 s)))).
Proof.
  intros Hok Hne.
  apply map_ext; try (now do 2 apply registerHandle_ok).
  intros k. rewrite !registerHandle_lookup.
  destruct (String.eqb_spec k (getName h2)) as [->|H2]; [|reflexivity].
  destruct (String.eqb_spec (getName h2) (getName h1)) as [E|_];
    [now symmetry in E|reflexivity].
Qed.

(** X6.  Every [registerHandle] call either adds a node or sends a warning,
    never both and never neither: after any history of calls on a new
    manager, the size of the map plus the number of warnings sent is the
    number of [registerHandle] calls made. *)
Theorem X6_size_plus_warnings P cs (b : HW) :
  size (resource_map_ (run P cs (init b)))
  + length (filter is_warn (events (run P cs (init b))))
  = length (registered cs).
Proof.
  induction cs as [|c cs IH] using rev_ind; [reflexivity|].
  rewrite run_snoc, registered_app, length_app.
  set (s := run P cs (init b)) in *.
  destruct c as [h|name|]; cbn [step registered length].
  - unfold size in *.
    destruct (find (getName h) (resource_map_ s)) as [i a v|] eqn:Hf.
    + rewrite (registerHandle_present h s i a v Hf). simpl.
      rewrite length_set_second, filter_app, length_app. simpl. lia.
    + rewrite (registerHandle_absent h s Hf). simpl.
      rewrite (length_insert_absent (getName h, h) _ Hf). lia.
  - rewrite getHandle_map, getHandle_warns. lia.
  - rewrite getNames_keys. simpl. lia.
Qed.

(** X7.  Under [ClaimResources] the calls made to the collaborator's
    [claim] over a history on a new manager are exactly, and in order, the
    [getHandle] calls whose name had been registered by then: a name that
    was not registered yet is never claimed, and [registerHandle] and
    [getNames] claim nothing. *)
Theorem X7_claim_trace cs (b : HW) :
  filter is_claim (events (run ClaimResources cs (init b)))
  = map Claim (expected_claims cs).
Proof.
  unfold expected_claims.
  induction cs as [|c cs IH] using rev_ind; [reflexivity|].
  rewrite run_snoc, claims_step_snoc.
  set (s := run ClaimResources cs (init b)) in *.
  destruct c as [h|name|]; cbn [step claims_step snd fst].
  - now rewrite registerHandle_claims.
  - rewrite getHandle_claim_events, filter_app, IH.
    rewrite (present_existsb name s (fst (fold_left claims_step cs ([], [])))).
    + destruct (existsb _ _); simpl.
      * now rewrite map_app.
      * now rewrite app_nil_r.
    + intros k. unfold s. now rewrite claims_registered, run_keys.
  - rewrite getNames_keys. exact IH.
Qed.

(** X8.  Registering the same handle again changes nothing in the map: the
    second [registerHandle(h)] leaves [resource_map_] as the first left it
    and only sends the replacement warning. *)
Theorem X8_registerHandle_again h s :
  registerHandle h (fst (registerHandle h s))
  = ({| base := base s;
        resource_map_ := resource_map_ (fst (registerHandle h s));
        events := events (fst (registerHandle h s))
                  ++ [Warn ("Replacing previously registered handle '"
                            ++ getName h ++ "' in '" ++ type_name ++ "'.")] |},
     Returned tt).
Proof.
  destruct (registerHandle_finds h s) as [i Hf].
  rewrite (registerHandle_present h _ i _ _ Hf), registerHandle_base.
  destruct (find_node_inv _ _ _ _ _ Hf) as [_ Hn].
  now rewrite (set_second_same _ i _ _ Hn).
Qed.

(** X9.  Enumeration and lookup agree in every state: a name is among those
    [getNames()] returns exactly when [getHandle(name)] without claiming
    returns a handle. *)
Theorem X9_getNames_getHandle_agree s name :
  exists names,
    getNames s = (s, Returned names)
    /\ (In name names
        <-> exists h, snd (getHandle DontClaimResources name s) = Returned h).
Proof.
  exists (keys (resource_map_ s)). split; [apply getNames_keys|].
  rewrite getHandle_outcome.
  destruct (lookup name (resource_map_ s)) as [h|] eqn:Hl.
  - split; [intros _; now exists h|]. intros _.
    now apply lookup_some_In in Hl.
  - apply lookup_none_iff in Hl. split; [contradiction|].
    intros [h Hh]. discriminate.
Qed.

Lemma registerHandle_warn_events h s :
  events (fst (registerHandle h s))
  = events s ++ (if present (getName h) s
                 then [Warn (replacing_msg (getName h))] else []).
Proof.
  unfold present.
  destruct (find (getName h) (resource_map_ s)) as [i a b|] eqn:Hf.
  - now rewrite (registerHandle_present h s i a b Hf).
  - rewrite (registerHandle_absent h s Hf). simpl. now rewrite app_nil_r.
Qed.

Lemma warnings_step_snoc cs c :
  fold_left warnings_step (cs ++ [c]) ([], [])
  = warnings_step (fold_left warnings_step cs ([], [])) c.
Proof. now rewrite fold_left_app. Qed.

Lemma warnings_registered cs k :
  In k (fst (fold_left warnings_step cs ([], []))) <-> In k (registered cs).
Proof.
  induction cs as [|c cs IH] using rev_ind; [reflexivity|].
  rewrite warnings_step_snoc, registered_app, in_app_iff.
  destruct c as [h|name|]; simpl; rewrite IH; intuition.
Qed.

Lemma getHandle_base_claim name s :
  base (fst (getHandle ClaimResources name s))
  = if present name s then fst (hw_claim name (base s)) else base s.
Proof.
  unfold present.
  destruct (find name (resource_map_ s)) as [i a b|] eqn:Hf.
  - now rewrite (getHandle_present_claim name s i a b Hf).
  - now rewrite (getHandle_absent _ name s Hf).
Qed.

(** X10.  The warnings sent over a history on a new manager are exactly, and
    in order, one for each [registerHandle] call whose name had been
    registered before; each names that resource and the type of the
    manager.  A first registration of a name, [getHandle] and [getNames]
    send none. *)
Theorem X10_warning_trace P cs (b : HW) :
  filter is_warn (events (run P cs (init b)))
  = map (fun name =>
           Warn ("Replacing previously registered handle '" ++ name
                 ++ "' in '" ++ type_name ++ "'."))
        (expected_warnings cs).
Proof.
  unfold expected_warnings.
  induction cs as [|c cs IH] using rev_ind; [reflexivity|].
  rewrite run_snoc, warnings_step_snoc.
  set (s := run P cs (init b)) in *.
  destruct c as [h|name|]; cbn [step warnings_step snd fst].
  - rewrite registerHandle_warn_events, filter_app, IH.
    rewrite (present_existsb (getName h) s
               (fst (fold_left warnings_step cs ([], [])))).
    + destruct (existsb _ _); simpl.
      * now rewrite map_app.
      * now rewrite app_nil_r.
    + intros k. unfold s. now rewrite warnings_registered, run_keys.
  - rewrite getHandle_warns. exact IH.
  - rewrite getNames_keys. exact IH.
Qed.

(** X11.  Under [ClaimResources] the collaborator is changed by nothing but
    the claims of X7: after a history on a new manager its state is the one
    it reaches by receiving [claim] for the [getHandle] calls of registered
    names, in order, whether those calls returned or threw. *)
Theorem X11_collaborator_state cs (b : HW) :
  base (run ClaimResources cs (init b))
  = fold_left (fun hw name => fst (hw_claim name hw)) (expected_claims cs) b.
Proof.
  unfold expected_claims.
  induction cs as [|c cs IH] using rev_ind; [reflexivity|].
  rewrite run_snoc, claims_step_snoc.
  set (s := run ClaimResources cs (init b)) in *.
  destruct c as [h|name|]; cbn [step claims_step snd fst].
  - now rewrite registerHandle_base.
  - rewrite getHandle_base_claim.
    rewrite (present_existsb name s (fst (fold_left claims_step cs ([], [])))).
    + destruct (existsb _ _); [|exact IH].
      now rewrite fold_left_app, <- IH.
    + intros k. unfold s. now rewrite claims_registered, run_keys.
  - rewrite getNames_keys. exact IH.
Qed.

End ResourceManagerLookup.

(** ** The further properties on concrete managers *)

(** X1 at a concrete manager: registering "caster" does not disturb
    "wheel_left". *)
Lemma X1_registerHandle_frame_witness :
  "wheel_left" <> getName caster
  /\ snd (getHandle ClaimResources "wheel_left"
            (fst (registerHandle caster claimed_left)))
     = snd (getHandle ClaimResources "wheel_left" claimed_left).
Proof.
  assert ("wheel_left" <> getName caster) as Hne by discriminate.
  split; [exact Hne|].
  exact (X1_registerHandle_frame ClaimResources caster claimed_left
           "wheel_left" Hne).
Defined.

(** X2 at a concrete manager: the handle found under "wheel_left" is named
    "wheel_left". *)
Lemma X2_returned_handle_is_named_witness :
  snd (getHandle DontClaimResources "wheel_left"
         (run ClaimResources
              [RegisterHandle wheel_left; RegisterHandle caster;
               RegisterHandle wheel_left'] fresh))
  = Returned wheel_left'
  /\ getName wheel_left' = "wheel_left".
Proof.
  split; [reflexivity|].
  exact (X2_returned_handle_is_named ClaimResources DontClaimResources
           [RegisterHandle wheel_left; RegisterHandle caster;
            RegisterHandle wheel_left'] [] "wheel_left" wheel_left' eq_refl).
Defined.

(** X4 at concrete managers: the same latest registrations made in another
    order, with lookups in between and another collaborator state. *)
Lemma X4_map_determined_by_latest_registrations_witness :
  (forall name,
      last_registered name [RegisterHandle wheel_left; RegisterHandle caster;
                            RegisterHandle wheel_left']
      = last_registered name [RegisterHandle caster; GetHandle "caster";
                              RegisterHandle wheel_left'; GetNames])
  /\ resource_map_ (run DontClaimResources
                        [RegisterHandle wheel_left; RegisterHandle caster;
                         RegisterHandle wheel_left'] fresh)
     = resource_map_ (run ClaimResources
                          [RegisterHandle caster; GetHandle "caster";
                           RegisterHandle wheel_left'; GetNames] held_left).
Proof.
  assert (forall name,
      last_registered name [RegisterHandle wheel_left; RegisterHandle caster;
                            RegisterHandle wheel_left']
      = last_registered name [RegisterHandle caster; GetHandle "caster";
                              RegisterHandle wheel_left'; GetNames]) as Hsame.
  { intros name. unfold last_registered. simpl.
    now destruct (String.eqb name "wheel_left"). }
  split; [exact Hsame|].
  exact (X4_map_determined_by_latest_registrations
           DontClaimResources ClaimResources _ _ [] ["wheel_left"] Hsame).
Defined.

(** X5 at a concrete manager: "wheel_right" and "caster" registered in either
    order. *)
Lemma X5_registerHandle_commutes_witness :
  map_ok (resource_map_ claimed_left)
  /\ getName wheel_right <> getName caster
  /\ resource_map_ (fst (registerHandle caster
                           (fst (registerHandle wheel_right claimed_left))))
     = resource_map_ (fst (registerHandle wheel_right
                             (fst (registerHandle caster claimed_left)))).
Proof.
  assert (map_ok (resource_map_ claimed_left)) as Hok
      by (repeat constructor).
  assert (getName wheel_right <> getName caster) as Hne by discriminate.
  split; [exact Hok|]. split; [exact Hne|].
  exact (X5_registerHandle_commutes claimed_left wheel_right caster Hok Hne).
Defined.
